(** * RFControl: pulse capture, ring buffer and bucket compression

    A shallow embedding of [src/RFControl.cpp].  Machine integers are
    modelled as [Z] with their wrap-around written out: the target is an
    AVR Arduino, where [unsigned int] has 16 bits (the source scales time
    by 4 "to fit in 16 bit unsigned int"), [unsigned long] has 32 bits and
    [byte] has 8 bits.  Arrays are lists accessed through [rd] and [wr].
    The globals of the translation unit are gathered in the record
    [state]; every function of the source becomes a function on it. *)

From Stdlib Require Import ZArith Lia Bool List Sorted.
From stdpp Require Import base list.
Import ListNotations.

#[local] Open Scope Z_scope.

(** ** Machine integers *)

Definition UINT_BITS : Z := 16.
Definition ULONG_BITS : Z := 32.
Definition UINT_MOD : Z := 2 ^ UINT_BITS.
Definition ULONG_MOD : Z := 2 ^ ULONG_BITS.
Definition BYTE_MOD : Z := 256.

(** Conversions to [unsigned int], [unsigned long] and [byte]. *)
Definition uint (x : Z) : Z := x mod UINT_MOD.
Definition ulong (x : Z) : Z := x mod ULONG_MOD.
Definition byte (x : Z) : Z := x mod BYTE_MOD.

(** Arithmetic on [unsigned int]. *)
Definition uadd (a b : Z) : Z := uint (a + b).
Definition usub (a b : Z) : Z := uint (a - b).
Definition umul (a b : Z) : Z := uint (a * b).

Definition is_uint (x : Z) : Prop := 0 <= x < UINT_MOD.
Definition is_byte (x : Z) : Prop := 0 <= x < BYTE_MOD.

(** ** Arrays *)

(** [a[i]] and [a[i] = v] for an index held in a machine integer. *)
Definition rd (a : list Z) (i : Z) : Z := default 0 (a !! Z.to_nat i).
Definition wr (a : list Z) (i : Z) (v : Z) : list Z := <[Z.to_nat i := v]> a.

(** ** Constants of the source *)

Definition PULSE_LENGTH_DIVIDER : Z := 4.
Definition MIN_MSG_LEN : Z := 16.
Definition MAX_PULSE_PERIODS : Z := 20.
Definition MIN_PERIOD_TIME : Z := 120 / PULSE_LENGTH_DIVIDER.

(** ** The globals *)

Record state : Type := mkState {
  lastTime : Z;        (* volatile unsigned int *)
  periodTime : Z;      (* volatile unsigned int *)
  streak : Z;          (* volatile byte *)
  writer : Z;          (* volatile byte *)
  reader : Z;          (* volatile byte *)
  msgbuf : list Z;     (* volatile unsigned int msgbuf[MAX_RECORDINGS] *)
  duration : Z;        (* volatile unsigned int *)
  new_duration : bool  (* volatile bool *)
}.

Definition set_lastTime (v : Z) (s : state) : state :=
  mkState v (periodTime s) (streak s) (writer s) (reader s) (msgbuf s)
          (duration s) (new_duration s).
Definition set_periodTime (v : Z) (s : state) : state :=
  mkState (lastTime s) v (streak s) (writer s) (reader s) (msgbuf s)
          (duration s) (new_duration s).
Definition set_streak (v : Z) (s : state) : state :=
  mkState (lastTime s) (periodTime s) v (writer s) (reader s) (msgbuf s)
          (duration s) (new_duration s).
Definition set_writer (v : Z) (s : state) : state :=
  mkState (lastTime s) (periodTime s) (streak s) v (reader s) (msgbuf s)
          (duration s) (new_duration s).
Definition set_reader (v : Z) (s : state) : state :=
  mkState (lastTime s) (periodTime s) (streak s) (writer s) v (msgbuf s)
          (duration s) (new_duration s).
Definition set_msgbuf (v : list Z) (s : state) : state :=
  mkState (lastTime s) (periodTime s) (streak s) (writer s) (reader s) v
          (duration s) (new_duration s).
Definition set_duration (v : Z) (s : state) : state :=
  mkState (lastTime s) (periodTime s) (streak s) (writer s) (reader s)
          (msgbuf s) v (new_duration s).
Definition set_new_duration (v : bool) (s : state) : state :=
  mkState (lastTime s) (periodTime s) (streak s) (writer s) (reader s)
          (msgbuf s) (duration s) v.

(** The three ring indices hold values of their declared type [byte]. *)
Record ring_wf (s : state) : Prop := mkRingWf {
  wf_streak : is_byte (streak s);
  wf_writer : is_byte (writer s);
  wf_reader : is_byte (reader s)
}.

(** ** Receiver set-up *)

(** [RFControl::startReceiving]; [micros] is the reading of [hw_micros()].
    The buffer contents are not touched. *)
Definition startReceiving (micros : Z) (s : state) : state :=
  set_streak 0
    (set_reader 0
      (set_writer 0
        (set_periodTime 0
          (set_lastTime (uint (micros / 4)) s)))).

(** [RFControl::hasData]. *)
Definition hasData (s : state) : bool := negb (writer s =? reader s).

(** ** The interrupt service routine *)

(** The four blocks of [isr], in the order of the source.  [pulseTime]
    and [periods] are the locals computed at its top. *)

(** [if (periods == 0) streak = 0;] *)
Definition isr_noise (periods : Z) (s : state) : state :=
  if periods =? 0 then set_streak 0 s else s.

(** [if (streak > 0) { byte index = (writer + streak++); ... }] *)
Definition isr_receive (periods : Z) (s : state) : state :=
  if 0 <? streak s then
    let index := byte (writer s + streak s) in
    let s1 := set_streak (byte (streak s + 1)) s in
    if index =? reader s1 then set_streak 0 s1
    else set_msgbuf (wr (msgbuf s1) index periods) s1
  else s.

(** The [lowPulse] branch. *)
Definition isr_low (periods : Z) (s : state) : state :=
  if (MIN_PERIOD_TIME <? periodTime s) && (MAX_PULSE_PERIODS <? periods) then
    let s1 :=
      if MIN_MSG_LEN <? streak s then
        let s2 := set_msgbuf (wr (msgbuf s) (writer s) (periodTime s)) s in
        set_writer (byte (writer s2 + streak s2)) s2
      else s in
    set_streak 1 s1
  else s.

(** The high pulse branch. *)
Definition isr_high (pulseTime periods : Z) (s : state) : state :=
  let s1 := if MAX_PULSE_PERIODS <? periods then set_streak 0 s else s in
  if 0 <? streak s1 then
    if periods =? 1 then
      set_periodTime
        (uadd (umul (periodTime s1) (streak s1)) (umul 2 pulseTime)
           / (streak s1 + 2)) s1
    else s1
  else set_periodTime pulseTime s1.

(** The locals [now], [pulseTime] and [periods] of [isr]. *)
Definition isr_now (micros : Z) : Z := uint (micros / PULSE_LENGTH_DIVIDER).
Definition isr_pulseTime (s : state) (micros : Z) : Z :=
  usub (isr_now micros) (lastTime s).
Definition isr_periods (s : state) (micros : Z) : Z :=
  uadd (isr_pulseTime s micros) (periodTime s / 2) / periodTime s.

(** [isr].  [micros] is the reading of [hw_micros()] and [level] the
    value [digitalRead(interruptPin + 2)] returns.  The quotient by
    [periodTime] is computed unconditionally at the top of the handler: a
    division by zero is undefined behaviour, here [None]. *)
Definition isr (s : state) (micros level : Z) : option state :=
  let now := isr_now micros in
  let pulseTime := isr_pulseTime s micros in
  if periodTime s =? 0 then None
  else
    let periods := isr_periods s micros in
    let lowPulse := byte level in
    let s1 := set_new_duration true (set_duration pulseTime (set_lastTime now s)) in
    let s2 := isr_noise periods s1 in
    let s3 := isr_receive periods s2 in
    Some (if lowPulse =? 0 then isr_high pulseTime periods s3
          else isr_low periods s3).

(** A run of the handler over a list of edges [(micros, level)]. *)
Fixpoint isr_run (s : state) (edges : list (Z * Z)) : option state :=
  match edges with
  | [] => Some s
  | (micros, level) :: rest =>
      match isr s micros level with
      | Some s' => isr_run s' rest
      | None => None
      end
  end.

(** ** The reader side: [getRaw] and [continueReceiving] *)

Section Reader.

(** [MAX_RECORDINGS], the length of [msgbuf], is defined in [RFControl.h],
    which is not among the sources: it is a parameter here.  The circular
    part of the buffer is its first 256 words. *)
Variable MAX_RECORDINGS : Z.

(** The locals of [getRaw] that its loop changes, with the buffer. *)
Record raw_cursor : Type := mkRawCursor {
  rc_buf : list Z;
  rc_pos : Z;     (* byte pos *)
  rc_size : Z     (* static unsigned int size *)
}.

(** The condition of the [while] in [getRaw]. *)
Definition getRaw_cond (s : state) (max_size : Z) (c : raw_cursor) : bool :=
  negb (byte (reader s + rc_pos c) =? writer s)
  && (rd (rc_buf c) (byte (reader s + rc_pos c)) <=? MAX_PULSE_PERIODS)
  && (rc_size c <? max_size).

(** [msgbuf[start + size++] = pt * msgbuf[(byte)(reader + pos++)];] *)
Definition getRaw_store (s : state) (start pt : Z) (c : raw_cursor) : raw_cursor :=
  mkRawCursor
    (wr (rc_buf c) (uadd start (rc_size c))
        (umul pt (rd (rc_buf c) (byte (reader s + rc_pos c)))))
    (byte (rc_pos c + 1))
    (uint (rc_size c + 1)).

Fixpoint getRaw_loop (fuel : nat) (s : state) (start max_size pt : Z)
    (c : raw_cursor) : raw_cursor :=
  match fuel with
  | O => c
  | S fuel' =>
      if getRaw_cond s max_size c
      then getRaw_loop fuel' s start max_size pt (getRaw_store s start pt c)
      else c
  end.

(** [RFControl::getRaw].  The result is the new state, the index [start]
    with [*buffer = &msgbuf[start]], and [*timings_size].  The loop runs
    at most 255 times, because [pos] visits every slot but [reader]. *)
Definition getRaw (s : state) : state * Z * Z :=
  let start := uint (reader s) in
  let max_size := uint (MAX_RECORDINGS - reader s) in
  if negb (reader s =? writer s) then
    let pt := rd (msgbuf s) (byte (reader s + 0)) in
    let c := getRaw_loop 256 s start max_size pt (mkRawCursor (msgbuf s) 1 0) in
    if max_size <=? rc_size c then
      (set_msgbuf (rc_buf c) s, start, 0)
    else if negb (reader s + rc_pos c =? writer s) then
      let c' := getRaw_store s start pt c in
      (set_msgbuf (rc_buf c') s, start, rc_size c')
    else
      (set_msgbuf (rc_buf c) s, start, rc_size c)
  else (s, start, 0).

(** The sequence of durations a caller of [getRaw] sees. *)
Definition raw_view (r : state * Z * Z) : list Z :=
  let '(s, start, size) := r in
  take (Z.to_nat size) (drop (Z.to_nat start) (msgbuf s)).

End Reader.

(** The [while] of [continueReceiving]. *)
Fixpoint continue_loop (fuel : nat) (s : state) : state :=
  match fuel with
  | O => s
  | S fuel' =>
      if negb (reader s =? writer s)
         && (rd (msgbuf s) (reader s) <=? MAX_PULSE_PERIODS)
      then continue_loop fuel' (set_reader (byte (reader s + 1)) s)
      else s
  end.

(** [RFControl::continueReceiving].  The loop stops at [writer] at the
    latest, after at most 255 steps. *)
Definition continueReceiving (s : state) : state :=
  if negb (reader s =? writer s) then
    let s1 := set_reader (byte (reader s + 1)) s in
    let s2 := continue_loop 256 s1 in
    if negb (reader s2 =? writer s2)
    then set_reader (byte (reader s2 + 1)) s2
    else s2
  else s.

(** [RFControl::getLastDuration] and [RFControl::existNewDuration]. *)
Definition getLastDuration (s : state) : state * Z :=
  (set_new_duration false s, duration s).
Definition existNewDuration (s : state) : bool := new_duration s.

(** ** Bucket compression *)

(** The arrays the two compression functions work on: the caller's
    [buckets] and [timings] and the locals [sums] and [counts]. *)
Record work : Type := mkWork {
  buckets : list Z;   (* unsigned int buckets[8] *)
  sums : list Z;      (* unsigned long sums[8] *)
  counts : list Z;    (* unsigned int counts[8] *)
  timings : list Z    (* unsigned int *timings *)
}.

(** [for (j = 0; j < 8; j++) buckets[j] = 0;] *)
Definition clear_buckets (b : list Z) : list Z :=
  foldl (fun b j => wr b j 0) b (seqZ 0 8).

(** [refVal - delta < val && val < refVal + delta] with
    [delta = refVal/4 + refVal/8]. *)
Definition delta_of (refVal : Z) : Z := uadd (refVal / 4) (refVal / 8).
Definition in_band (refVal val : Z) : bool :=
  (usub refVal (delta_of refVal) <? val) && (val <? uadd refVal (delta_of refVal)).

(** [sums[j] += val; counts[j]++;] *)
Definition account (j val : Z) (w : work) : work :=
  mkWork (buckets w)
         (wr (sums w) j (ulong (rd (sums w) j + val)))
         (wr (counts w) j (uint (rd (counts w) j + 1)))
         (timings w).

Definition set_buckets (b : list Z) (w : work) : work :=
  mkWork b (sums w) (counts w) (timings w).
Definition set_timings (t : list Z) (w : work) : work :=
  mkWork (buckets w) (sums w) (counts w) t.

(** The inner [for (; j < 8; j++)] of [compressTimings] for [timings[i]];
    [n] is the number of slots left to try.  The result is the value of
    [j] when the loop is left and the arrays. *)
Fixpoint ct_scan (n : nat) (j i : Z) (w : work) : Z * work :=
  match n with
  | O => (j, w)
  | S n' =>
      let refVal := rd (buckets w) j in
      let val := rd (timings w) i in
      if refVal =? 0 then
        (j, account j val
              (set_timings (wr (timings w) i j)
                 (set_buckets (wr (buckets w) j val) w)))
      else if in_band refVal val then
        (j, account j val (set_timings (wr (timings w) i j) w))
      else ct_scan n' (j + 1) i w
  end.

(** The outer loop of [compressTimings]; [n] durations are left from
    index [i] on.  The flag [false] is the [return false] in the loop. *)
Fixpoint ct_loop (n : nat) (i : Z) (w : work) : bool * work :=
  match n with
  | O => (true, w)
  | S n' =>
      let '(j, w') := ct_scan 8 0 i w in
      if j =? 8 then (false, w') else ct_loop n' (i + 1) w'
  end.

(** [if (counts[j] != 0) buckets[j] = sums[j] / counts[j];] for every [j]. *)
Definition mean_step (w : work) (j : Z) : work :=
  if rd (counts w) j =? 0 then w
  else set_buckets (wr (buckets w) j (uint (rd (sums w) j / rd (counts w) j))) w.
Definition means (w : work) : work := foldl mean_step w (seqZ 0 8).

Definition zeros8 : list Z := replicate 8 0.

(** [RFControl::compressTimings]: the returned flag, [buckets] and
    [timings] as the caller finds them. *)
Definition compressTimings (buckets0 timings0 : list Z) (timings_size : nat)
    : bool * list Z * list Z :=
  let w0 := mkWork (clear_buckets buckets0) zeros8 zeros8 timings0 in
  let '(ok, w1) := ct_loop timings_size 0 w0 in
  if ok then
    let w2 := means w1 in (true, buckets w2, timings w2)
  else (false, buckets w1, timings w1).

(** The inner loop of the first pass of [compressTimingsAndSortBuckets]:
    as [ct_scan], but [timings] is only read. *)
Fixpoint cs_scan (n : nat) (j val : Z) (w : work) : Z * work :=
  match n with
  | O => (j, w)
  | S n' =>
      let refVal := rd (buckets w) j in
      if refVal =? 0 then
        (j, account j val (set_buckets (wr (buckets w) j val) w))
      else if in_band refVal val then (j, account j val w)
      else cs_scan n' (j + 1) val w
  end.

Fixpoint cs_loop (n : nat) (i : Z) (w : work) : bool * work :=
  match n with
  | O => (true, w)
  | S n' =>
      let val := rd (timings w) i in
      let '(j, w') := cs_scan 8 0 val w in
      if j =? 8 then (false, w') else cs_loop n' (i + 1) w'
  end.

(** One compare-and-swap of the bubble sort. *)
Definition swap_step (b : list Z) (j : Z) : list Z :=
  if rd b (j + 1) <? rd b j then
    let temp := rd b j in
    wr (wr b j (rd b (j + 1))) (j + 1) temp
  else b.
(** [for (j = 0; j < 7; j++)] and the eight passes around it. *)
Definition bubble_pass (b : list Z) : list Z := foldl swap_step b (seqZ 0 7).
Definition bubble_sort (b : list Z) : list Z :=
  foldl (fun b _ => bubble_pass b) b (seqZ 0 8).

(** The search for the first non-zero bucket: [first] stays 0 when there
    is none. *)
Fixpoint find_first (n : nat) (i : Z) (b : list Z) : Z :=
  match n with
  | O => 0
  | S n' => if rd b i =? 0 then find_first n' (i + 1) b else i
  end.

(** [buckets[i] = buckets[first]; buckets[first] = 0; first++;] *)
Definition move_step (bf : list Z * Z) (i : Z) : list Z * Z :=
  let '(b, first) := bf in
  let b1 := wr b i (rd b first) in
  (wr b1 first 0, first + 1).
Definition compact (b : list Z) : list Z :=
  let first := find_first 8 0 b in
  let end_ := 8 - first in
  fst (foldl move_step (b, first) (seqZ 0 end_)).

(** [ref_Val_h] and [ref_Val_l]. *)
Definition ref_high (b : list Z) : list Z :=
  map (fun i => uadd (rd b i) (delta_of (rd b i))) (seqZ 0 8).
Definition ref_low (b : list Z) : list Z :=
  map (fun i => usub (rd b i) (delta_of (rd b i))) (seqZ 0 8).

(** The inner loop of the second pass: the first [j] whose band holds
    [val], if there is one. *)
Fixpoint relabel_scan (n : nat) (j val : Z) (lo hi : list Z) : option Z :=
  match n with
  | O => None
  | S n' =>
      if (rd lo j <? val) && (val <? rd hi j) then Some j
      else relabel_scan n' (j + 1) val lo hi
  end.

(** The second pass: [timings[i]] is overwritten when a band holds it. *)
Fixpoint relabel_loop (n : nat) (i : Z) (lo hi : list Z) (t : list Z) : list Z :=
  match n with
  | O => t
  | S n' =>
      let val := rd t i in
      let t' := match relabel_scan 8 0 val lo hi with
                | Some j => wr t i j
                | None => t
                end in
      relabel_loop n' (i + 1) lo hi t'
  end.

(** [RFControl::compressTimingsAndSortBuckets]. *)
Definition compressTimingsAndSortBuckets (buckets0 timings0 : list Z)
    (timings_size : nat) : bool * list Z * list Z :=
  let w0 := mkWork (clear_buckets buckets0) zeros8 zeros8 timings0 in
  let '(ok, w1) := cs_loop timings_size 0 w0 in
  if ok then
    let w2 := means w1 in
    let b := compact (bubble_sort (buckets w2)) in
    let t := relabel_loop timings_size 0 (ref_low b) (ref_high b) (timings w2) in
    (true, b, t)
  else (false, buckets w1, timings w1).

(** The bucket look-up of [sendByCompressedTimings]: the duration held
    for the class index [index]. *)
Definition expand (b : list Z) (index : Z) : Z := rd b index.

(** * Properties stated about the program *)

(** ** The ring buffer *)

(** Slot [i] belongs to the committed region, the slots from [reader] up
    to but not including [writer], taken circularly. *)
Definition committed (s : state) (i : Z) : Prop :=
  byte (i - reader s) < byte (writer s - reader s).

(** The capture invariant: the slots the message in progress has used so
    far, [writer + 1 .. writer + streak - 1], have not reached [reader]. *)
Definition capture_inv (s : state) : Prop :=
  ring_wf s /\ (reader s = writer s \/ streak s <= byte (reader s - writer s)).

(** A sync gap as the handler detects it on a low pulse. *)
Definition sync_gap (s : state) (micros level : Z) : Prop :=
  byte level <> 0 /\ MIN_PERIOD_TIME < periodTime s
  /\ MAX_PULSE_PERIODS < isr_periods s micros.

(** ** First-fit classification *)

(** Class [j] is the first, in index order, that takes [val]: its slot is
    empty or its reference value has [val] in its band, and every slot
    before it is occupied and does not fit. *)
Definition first_fit (b : list Z) (val j : Z) : Prop :=
  0 <= j < 8
  /\ (rd b j = 0 \/ in_band (rd b j) val = true)
  /\ forall k, 0 <= k < j -> rd b k <> 0 /\ in_band (rd b k) val = false.

(** All eight slots are occupied and none fits. *)
Definition no_fit (b : list Z) (val : Z) : Prop :=
  forall k, 0 <= k < 8 -> rd b k <> 0 /\ in_band (rd b k) val = false.

(** The effect of giving [timings[i]] to class [j]: the label is written,
    sum and count grow, and an empty slot takes the duration as its
    reference value. *)
Definition assign (i j : Z) (w : work) : work :=
  let val := rd (timings w) i in
  mkWork (if rd (buckets w) j =? 0 then wr (buckets w) j val else buckets w)
         (wr (sums w) j (ulong (rd (sums w) j + val)))
         (wr (counts w) j (uint (rd (counts w) j + 1)))
         (wr (timings w) i j).

(** [classified n i w ok w']: classifying the [n] durations from index [i]
    on, one after the other by first fit, leads from [w] to [w']; [ok] is
    [false] when a duration fitted no class. *)
Inductive classified : nat -> Z -> work -> bool -> work -> Prop :=
| classified_done i w :
    classified 0 i w true w
| classified_fail n i w :
    no_fit (buckets w) (rd (timings w) i) ->
    classified (S n) i w false w
| classified_step n i j w ok w' :
    first_fit (buckets w) (rd (timings w) i) j ->
    classified n (i + 1) (assign i j w) ok w' ->
    classified (S n) i w ok w'.

(** The mean of class [j] as the last loop reports it. *)
Definition class_mean (w : work) (j : Z) : Z :=
  if rd (counts w) j =? 0 then rd (buckets w) j
  else uint (rd (sums w) j / rd (counts w) j).

(** *** The classification as the specification words it

    Each class is a running (sum, count); a duration goes to the first
    class whose current mean has it in the closed band
    [mean - (mean/4 + mean/8), mean + (mean/4 + mean/8)]; a new class is
    opened when none fits and fewer than eight exist. *)
Definition spec_band (mean val : Z) : bool :=
  (mean - (mean / 4 + mean / 8) <=? val) && (val <=? mean + (mean / 4 + mean / 8)).

Fixpoint spec_find (cls : list (Z * Z)) (val j : Z) : option Z :=
  match cls with
  | [] => None
  | (sm, cn) :: rest =>
      if spec_band (sm / cn) val then Some j else spec_find rest val (j + 1)
  end.

Definition spec_add (val : Z) (c : Z * Z) : Z * Z := (fst c + val, snd c + 1).

Fixpoint spec_classify (cls : list (Z * Z)) (ts : list Z)
    : option (list (Z * Z) * list Z) :=
  match ts with
  | [] => Some (cls, [])
  | val :: rest =>
      let placed :=
        match spec_find cls val 0 with
        | Some j => Some (j, alter (spec_add val) (Z.to_nat j) cls)
        | None =>
            if (length cls <? 8)%nat
            then Some (Z.of_nat (length cls), cls ++ [(val, 1)])
            else None
        end in
      match placed with
      | Some (j, cls') =>
          match spec_classify cls' rest with
          | Some (cls'', labels) => Some (cls'', j :: labels)
          | None => None
          end
      | None => None
      end
  end.

Definition spec_compressTimings (ts : list Z) : option (list Z * list Z) :=
  match spec_classify [] ts with
  | Some (cls, labels) =>
      Some (map (fun c => fst c / snd c) cls ++ replicate (8 - length cls) 0,
            labels)
  | None => None
  end.

(** ** Canonical order of the bucket table *)


(** A duration is within tolerance of a bucket value. *)
Definition within_tolerance (bucket val : Z) : Prop := in_band bucket val = true.

(** ** Auxiliary notions of the proofs *)

(** The ring fields a block of the handler leaves alone. *)
Definition same_ring (t t' : state) : Prop :=
  writer t' = writer t /\ reader t' = reader t.

(** The loop of [getRaw] after [k] rounds: [k] products have been stored
    from [reader] on, and the other slots are as they were. *)
Definition raw_inv (s : state) (max_size : Z) (c : raw_cursor) (k : Z) : Prop :=
  0 <= k
  /\ rc_pos c = k + 1
  /\ rc_size c = k
  /\ k <= max_size
  /\ k + 1 <= byte (writer s - reader s)
  /\ length (rc_buf c) = length (msgbuf s)
  /\ (forall i, 0 <= i < k ->
        rd (rc_buf c) (reader s + i)
        = umul (rd (msgbuf s) (reader s)) (rd (msgbuf s) (byte (reader s + 1 + i))))
  /\ (forall j, 0 <= j -> j < reader s \/ reader s + k <= j ->
        rd (rc_buf c) j = rd (msgbuf s) j)
  /\ (forall i, 0 <= i < k ->
        rd (msgbuf s) (byte (reader s + 1 + i)) <= MAX_PULSE_PERIODS).




(** ** Concrete runs *)

(** Edges from a list of pulses [(ticks, level)]: the clock advances by
    four microseconds per tick. *)
Fixpoint edges_from (micros : Z) (pulses : list (Z * Z)) : list (Z * Z) :=
  match pulses with
  | [] => []
  | (ticks, level) :: rest =>
      let micros' := micros + PULSE_LENGTH_DIVIDER * ticks in
      (micros', level) :: edges_from micros' rest
  end.

(** [n] pulses of [ticks] ticks each, alternately high and low. *)
Fixpoint data_pulses (n : nat) (ticks level : Z) : list (Z * Z) :=
  match n with
  | O => []
  | S n' => (ticks, level) :: data_pulses n' ticks (1 - level)
  end.

(** A receiver at rest whose period estimate is 100 ticks, with a buffer
    of 512 words. *)
Definition idle_state : state :=
  mkState 0 100 0 0 0 (replicate 512 0) 0 false.

(** A sync gap, then two messages of 17 pulses, each closed by a sync gap. *)
Definition two_messages : list (Z * Z) :=
  edges_from 0
    ([(3000, 1)] ++ data_pulses 17 100 0 ++ [(3000, 1)]
       ++ data_pulses 17 200 0 ++ [(3000, 1)]).

(** [n] messages of [k] pulses of [ticks] ticks, each closed by a sync gap
    of 3000 ticks. *)
Fixpoint messages (n k : nat) (ticks : Z) : list (Z * Z) :=
  match n with
  | O => []
  | S n' => data_pulses k ticks 0 ++ [(3000, 1)] ++ messages n' k ticks
  end.

(** A sync gap and eight messages that take 4 * 31 + 4 * 33 = 256 words. *)
Definition eight_messages : list (Z * Z) :=
  [(3000, 1)] ++ messages 4 29 100 ++ messages 4 31 200.

(** A message in progress with three slots in use and room in the buffer. *)
Definition refine_state : state :=
  mkState 0 100 3 0 10 (replicate 512 0) 0 false.

(** As [refine_state], but the next slot is the one [reader] points to. *)
Definition full_state : state :=
  mkState 0 100 3 0 3 (replicate 512 0) 0 false.

(** A long message with a long period: 200 slots at 400 ticks. *)
Definition long_state : state :=
  mkState 0 400 200 0 0 (replicate 512 0) 0 false.

(** A short capture attempt: five slots in use when the sync gap comes. *)
Definition short_state : state :=
  mkState 0 100 5 0 0 (replicate 512 0) 0 false.

(** 224 committed words and a message in progress that fills the rest. *)
Definition brim_state : state :=
  mkState 0 100 31 224 0 (replicate 512 1) 0 false.

(** One pending word only: [reader] is just behind [writer]. *)
Definition header_only_state : state :=
  mkState 0 100 0 6 5 (wr (replicate 512 0) 5 100) 0 false.

(** A pending region that wraps around and runs up to [writer] without a
    sync marker: header at 254, counts at 255 and 0; slot 1 is free. *)
Definition wrapped_state : state :=
  mkState 0 100 0 1 254
    ([2; 7] ++ replicate 252 0 ++ [100; 3] ++ replicate 256 0) 0 false.

(** A pending message whose sync marker times the header exceeds 16 bits. *)
Definition overflow_state : state :=
  mkState 0 3000 1 3 0 ([3000; 1; 30] ++ replicate 509 0) 0 false.

(** A captured message as the handler lays it out: header, 17 counts and
    the sync marker. *)
Definition message_state : state :=
  mkState 0 100 1 19 0
    ([100] ++ replicate 17 1 ++ [30] ++ replicate 493 0) 0 false.

(** * Verification *)

(** ** Tactics and basic facts *)

(** Linear arithmetic with the wrap-arounds turned into equations. *)
Ltac mlia :=
  unfold is_byte, is_uint, byte, uint, ulong, BYTE_MOD in *;
  change UINT_MOD with 65536 in *; change ULONG_MOD with 4294967296 in *;
  Z.div_mod_to_equations; lia.

(** Projections of updated records. *)
Ltac fields :=
  cbn [lastTime periodTime streak writer reader msgbuf duration new_duration
       set_lastTime set_periodTime set_streak set_writer set_reader
       set_msgbuf set_duration set_new_duration] in *.
Ltac wfields :=
  cbn [buckets sums counts timings account set_buckets set_timings] in *.

Lemma uadd_umul a b c d : uadd (umul a b) (umul c d) = uint (a * b + c * d).
Proof. unfold uadd, umul, uint. symmetry. apply Zplus_mod. Qed.

Lemma rd_wr_ne a i j v : 0 <= i -> 0 <= j -> i <> j -> rd (wr a j v) i = rd a i.
Proof.
  intros Hi Hj Hne. unfold rd, wr. rewrite list_lookup_insert_ne; [reflexivity|].
  intros E. apply Hne. symmetry. apply Z2Nat.inj; assumption.
Qed.

Lemma rd_wr_eq a i v : 0 <= i < Z.of_nat (length a) -> rd (wr a i v) i = v.
Proof.
  intros Hi. unfold rd, wr. rewrite list_lookup_insert_eq; [reflexivity|lia].
Qed.

Lemma length_wr a i v : length (wr a i v) = length a.
Proof. unfold wr. apply length_insert. Qed.



(** ** The interrupt service routine *)

(** With a period estimate the handler runs its four blocks in order. *)
Lemma isr_defined s micros level :
  periodTime s <> 0 ->
  isr s micros level =
    Some (let periods := isr_periods s micros in
          let s3 := isr_receive periods (isr_noise periods
                      (set_new_duration true
                         (set_duration (isr_pulseTime s micros)
                            (set_lastTime (isr_now micros) s)))) in
          if byte level =? 0 then isr_high (isr_pulseTime s micros) periods s3
          else isr_low periods s3).
Proof.
  intros Hp. unfold isr.
  destruct (Z.eqb_spec (periodTime s) 0); [contradiction|reflexivity].
Qed.

Lemma isr_undefined s micros level :
  isr s micros level = None <-> periodTime s = 0.
Proof.
  unfold isr. destruct (Z.eqb_spec (periodTime s) 0); split; intros; congruence.
Qed.

Lemma periods_nonzero_period s micros :
  isr_periods s micros <> 0 -> periodTime s <> 0.
Proof.
  intros H E. apply H. unfold isr_periods. rewrite E. apply Z.div_0_r.
Qed.

(** C1: on the first edge after [startReceiving] the period estimate is 0
    and the handler divides by it: nothing guards the quotient
    [(pulseTime + periodTime/2) / periodTime], so the computation of
    [periods] is not defined there. *)
Theorem isr_after_start_divides_by_zero micros0 s0 micros level :
  periodTime (startReceiving micros0 s0) = 0
  /\ isr (startReceiving micros0 s0) micros level = None.
Proof. split; reflexivity. Qed.

(** C4, as amended: on a high pulse of exactly one period that is
    appended to the message in progress, the period estimate becomes
    [(periodTime * n + 2 * pulseTime) / (n + 2)] in 16-bit unsigned
    arithmetic, where [n = streak + 1] counts the pulse just appended;
    without overflow this is the quotient over the integers. *)
Theorem isr_high_refines_period s micros level :
  byte level = 0 ->
  0 < streak s < 255 ->
  byte (writer s + streak s) <> reader s ->
  isr_periods s micros = 1 ->
  exists s',
    isr s micros level = Some s'
    /\ streak s' = streak s + 1
    /\ periodTime s' =
         uint (periodTime s * (streak s + 1) + 2 * isr_pulseTime s micros)
           / (streak s + 1 + 2)
    /\ (0 <= periodTime s ->
        periodTime s * (streak s + 1) + 2 * isr_pulseTime s micros < UINT_MOD ->
        periodTime s' =
          (periodTime s * (streak s + 1) + 2 * isr_pulseTime s micros)
            / (streak s + 1 + 2)).
Proof.
  intros Hlevel Hstreak Hslot Hper.
  assert (Hpt : periodTime s <> 0)
    by (apply (periods_nonzero_period s micros); lia).
  rewrite (isr_defined _ _ _ Hpt). cbv zeta. rewrite Hlevel, Hper. simpl (0 =? 0).
  unfold isr_noise. simpl (1 =? 0).
  unfold isr_receive. fields.
  destruct (Z.ltb_spec 0 (streak s)) as [_|]; [|lia].
  destruct (Z.eqb_spec (byte (writer s + streak s)) (reader s)) as [|_];
    [contradiction|].
  assert (Hb : byte (streak s + 1) = streak s + 1) by mlia.
  unfold isr_high. fields.
  change (MAX_PULSE_PERIODS <? 1) with false. cbv iota. fields.
  rewrite Hb.
  destruct (Z.ltb_spec 0 (streak s + 1)) as [_|]; [|lia].
  simpl (1 =? 1). cbv iota.
  eexists. split; [reflexivity|]. fields.
  rewrite uadd_umul.
  split; [reflexivity|]. split; [reflexivity|].
  intros Hpos Hsmall. f_equal. apply Z.mod_small.
  assert (0 <= isr_pulseTime s micros) by (unfold isr_pulseTime, usub; mlia).
  change UINT_MOD with 65536 in *. nia.
Qed.

Lemma isr_high_refines_period_witness :
  byte 0 = 0
  /\ isr_periods refine_state 520 = 1
  /\ exists s', isr refine_state 520 0 = Some s' /\ periodTime s' = 110.
Proof.
  split; [reflexivity|]. split; [reflexivity|].
  destruct (isr_high_refines_period refine_state 520 0)
    as (s' & E & _ & Hp & _).
  - reflexivity.
  - split; reflexivity.
  - vm_compute. congruence.
  - reflexivity.
  - exists s'. split; [exact E|]. rewrite Hp. reflexivity.
Defined.

(** The refinement does not use the streak before the append: with
    three slots in use, an estimate of 100 and a pulse of 130 ticks the
    new estimate is [(100*4 + 260) / 6 = 110], not [(100*3 + 260) / 5 =
    112]; when the slot is the one [reader] points to the message is
    dropped and the estimate restarts from the pulse; and a long message
    overflows the 16-bit product. *)
Lemma isr_high_refinement_counterexample :
  (0 < streak refine_state
   /\ isr_periods refine_state 520 = 1
   /\ (periodTime refine_state * streak refine_state
       + 2 * isr_pulseTime refine_state 520) / (streak refine_state + 2) = 112
   /\ option_map periodTime (isr refine_state 520 0) = Some 110)
  /\ (0 < streak full_state
      /\ isr_periods full_state 520 = 1
      /\ option_map periodTime (isr full_state 520 0) = Some 130)
  /\ (0 < streak long_state
      /\ isr_periods long_state 1600 = 1
      /\ (periodTime long_state * (streak long_state + 1)
          + 2 * isr_pulseTime long_state 1600) / (streak long_state + 1 + 2) = 400
      /\ option_map periodTime (isr long_state 1600 0) = Some 77).
Proof. vm_compute. repeat split; reflexivity. Qed.

(** C5: when a sync gap arrives and fewer than [MIN_MSG_LEN] slots are in
    use, nothing is finalized: [writer] and the header slot keep their
    values, [hasData] does not change, and a new streak of 1 starts. *)
Theorem isr_short_streak_not_finalized s micros level :
  is_byte (writer s) ->
  0 <= streak s < MIN_MSG_LEN ->
  sync_gap s micros level ->
  exists s',
    isr s micros level = Some s'
    /\ writer s' = writer s
    /\ reader s' = reader s
    /\ rd (msgbuf s') (writer s) = rd (msgbuf s) (writer s)
    /\ hasData s' = hasData s
    /\ streak s' = 1.
Proof.
  intros Hw Hstreak (Hlevel & Hpt & Hper).
  unfold MIN_MSG_LEN, MAX_PULSE_PERIODS in *.
  change MIN_PERIOD_TIME with 30 in *.
  rewrite isr_defined by lia. cbv zeta.
  destruct (Z.eqb_spec (byte level) 0) as [|_]; [contradiction|].
  set (p := isr_periods s micros) in *.
  set (s1 := set_new_duration _ _).
  assert (Hn : isr_noise p s1 = s1).
  { unfold isr_noise. destruct (Z.eqb_spec p 0); [lia|reflexivity]. }
  rewrite Hn.
  assert (Hrec : writer (isr_receive p s1) = writer s
            /\ reader (isr_receive p s1) = reader s
            /\ periodTime (isr_receive p s1) = periodTime s
            /\ rd (msgbuf (isr_receive p s1)) (writer s) = rd (msgbuf s) (writer s)
            /\ streak (isr_receive p s1) <= 16).
  { unfold isr_receive. subst s1. fields.
    destruct (Z.ltb_spec 0 (streak s)); fields.
    - destruct (Z.eqb_spec (byte (writer s + streak s)) (reader s)); fields.
      + repeat split; try reflexivity; lia.
      + repeat split; try reflexivity; [|mlia].
        apply rd_wr_ne; mlia.
    - repeat split; try reflexivity; lia. }
  destruct Hrec as (Hw3 & Hr3 & Hp3 & Hm3 & Hs3).
  unfold isr_low. rewrite Hp3.
  change MIN_PERIOD_TIME with 30. unfold MAX_PULSE_PERIODS, MIN_MSG_LEN in *.
  destruct (Z.ltb_spec 30 (periodTime s)); [|lia].
  destruct (Z.ltb_spec 20 p); [|lia]. cbn [andb].
  destruct (Z.ltb_spec 16 (streak (isr_receive p s1))); [lia|].
  eexists. split; [reflexivity|].
  unfold hasData. fields.
  rewrite Hw3, Hr3. repeat split; try reflexivity. exact Hm3.
Qed.

Lemma isr_short_streak_witness :
  sync_gap short_state 12000 1
  /\ exists s', isr short_state 12000 1 = Some s'
       /\ writer s' = 0 /\ hasData s' = false /\ streak s' = 1.
Proof.
  assert (Hsync : sync_gap short_state 12000 1).
  { unfold sync_gap. vm_compute. repeat split; congruence. }
  split; [exact Hsync|].
  destruct (isr_short_streak_not_finalized short_state 12000 1)
    as (s' & E & Hw & _ & _ & Hd & Hs).
  - vm_compute. split; congruence.
  - vm_compute. split; congruence.
  - exact Hsync.
  - exists s'. repeat split; assumption.
Defined.

(** *** The buffer-full guard and the committed region *)

Lemma isr_receive_guard periods t :
  0 < streak t -> byte (writer t + streak t) = reader t ->
  streak (isr_receive periods t) = 0
  /\ msgbuf (isr_receive periods t) = msgbuf t
  /\ writer (isr_receive periods t) = writer t.
Proof.
  intros Hs Hfull. unfold isr_receive.
  destruct (Z.ltb_spec 0 (streak t)); [|lia]. fields.
  destruct (Z.eqb_spec (byte (writer t + streak t)) (reader t)); [|contradiction].
  fields. auto.
Qed.

Lemma isr_noise_inv periods t :
  capture_inv t ->
  capture_inv (isr_noise periods t)
  /\ same_ring t (isr_noise periods t)
  /\ msgbuf (isr_noise periods t) = msgbuf t
  /\ periodTime (isr_noise periods t) = periodTime t.
Proof.
  intros [[Hs Hw Hr] Hinv]. unfold isr_noise, same_ring.
  destruct (periods =? 0); fields; repeat split; fields; auto; mlia.
Qed.

Lemma isr_receive_inv periods t :
  capture_inv t ->
  capture_inv (isr_receive periods t)
  /\ same_ring t (isr_receive periods t)
  /\ periodTime (isr_receive periods t) = periodTime t
  /\ forall i, is_byte i -> committed t i ->
       rd (msgbuf (isr_receive periods t)) i = rd (msgbuf t) i.
Proof.
  intros [[Hs Hw Hr] Hinv]. unfold isr_receive, same_ring.
  destruct (Z.ltb_spec 0 (streak t)); fields; [|repeat split; auto; mlia].
  destruct (Z.eqb_spec (byte (writer t + streak t)) (reader t)); fields.
  - repeat split; fields; auto; mlia.
  - repeat split; fields; auto; try mlia.
    intros i Hi Hc. apply rd_wr_ne; [mlia|mlia|].
    unfold committed in Hc. intros ->. mlia.
Qed.

Lemma isr_low_inv periods t :
  capture_inv t ->
  capture_inv (isr_low periods t)
  /\ reader (isr_low periods t) = reader t
  /\ forall i, is_byte i -> committed t i ->
       rd (msgbuf (isr_low periods t)) i = rd (msgbuf t) i.
Proof.
  intros [[Hs Hw Hr] Hinv]. unfold isr_low.
  destruct (_ && _); [|repeat split; auto; mlia].
  destruct (Z.ltb_spec MIN_MSG_LEN (streak t)); fields.
  - repeat split; fields; auto; try mlia.
    intros i Hi Hc. apply rd_wr_ne; [mlia|mlia|].
    unfold committed in Hc. intros ->. mlia.
  - repeat split; fields; auto; mlia.
Qed.

Lemma isr_high_inv pulseTime periods t :
  capture_inv t ->
  capture_inv (isr_high pulseTime periods t)
  /\ same_ring t (isr_high pulseTime periods t)
  /\ msgbuf (isr_high pulseTime periods t) = msgbuf t.
Proof.
  intros [[Hs Hw Hr] Hinv]. unfold isr_high, same_ring.
  destruct (MAX_PULSE_PERIODS <? periods); fields.
  - change (0 <? 0) with false. cbv iota.
    repeat split; fields; auto; mlia.
  - destruct (0 <? streak t); [destruct (periods =? 1)|]; fields;
      repeat split; fields; auto; mlia.
Qed.

(** With a message in progress whose next slot [writer + streak] is the
    one [reader] points to, the handler sets [streak] to 0 and stores
    nothing (a sync gap on the same edge then starts a streak of 1).  The
    handler never changes a slot of the range from [reader] up to
    [writer], and it keeps the invariant this rests on. *)
Lemma isr_keeps_committed s micros level s' :
  capture_inv s ->
  isr s micros level = Some s' ->
  (forall periods t,
      0 < streak t -> byte (writer t + streak t) = reader t ->
      streak (isr_receive periods t) = 0
      /\ msgbuf (isr_receive periods t) = msgbuf t)
  /\ (0 < streak s -> isr_periods s micros <> 0 ->
      byte (writer s + streak s) = reader s ->
      msgbuf s' = msgbuf s /\ writer s' = writer s
      /\ (streak s' = 0 \/ (streak s' = 1 /\ sync_gap s micros level)))
  /\ reader s' = reader s
  /\ (forall i, is_byte i -> committed s i -> rd (msgbuf s') i = rd (msgbuf s) i)
  /\ capture_inv s'.
Proof.
  intros Hinv Hisr.
  split.
  { intros p t H1 H2. destruct (isr_receive_guard p t H1 H2) as (?&?&?). auto. }
  assert (Hpt : periodTime s <> 0).
  { intros E. unfold isr in Hisr. rewrite E in Hisr. discriminate. }
  rewrite (isr_defined _ _ _ Hpt) in Hisr. cbv zeta in Hisr.
  injection Hisr as <-.
  set (p := isr_periods s micros).
  set (s1 := set_new_duration _ _).
  assert (Hinv1 : capture_inv s1).
  { destruct Hinv as [[Hs Hw Hr] Hd]. subst s1.
    split; [split; fields; assumption | fields; exact Hd]. }
  destruct (isr_noise_inv p s1 Hinv1) as (Hinv2 & [Hw2 Hr2] & Hm2 & Hp2).
  set (s2 := isr_noise p s1) in *.
  destruct (isr_receive_inv p s2 Hinv2) as (Hinv3 & [Hw3 Hr3] & Hp3 & Hm3).
  set (s3 := isr_receive p s2) in *.
  assert (Hc2 : forall i, committed s i -> committed s2 i).
  { intros i. unfold committed. rewrite Hw2, Hr2. subst s1. fields. auto. }
  assert (Hm : forall i, is_byte i -> committed s i ->
                 rd (msgbuf s3) i = rd (msgbuf s) i).
  { intros i Hi Hc. rewrite Hm3 by auto. rewrite Hm2. reflexivity. }
  assert (Hc3 : forall i, committed s i -> committed s3 i).
  { intros i Hc. apply Hc2 in Hc. unfold committed in *.
    rewrite Hw3, Hr3. exact Hc. }
  split.
  { intros Hs Hp Hfull.
    assert (E2 : s2 = s1).
    { subst s2. unfold isr_noise. fold p in Hp.
      destruct (Z.eqb_spec p 0); [contradiction|reflexivity]. }
    destruct (isr_receive_guard p s2) as (Hz & Hmz & Hwz).
    { rewrite E2. subst s1. fields. exact Hs. }
    { rewrite E2. subst s1. fields. exact Hfull. }
    fold s3 in Hz, Hmz, Hwz.
    assert (Hms : msgbuf s3 = msgbuf s) by (rewrite Hmz, E2; reflexivity).
    assert (Hws : writer s3 = writer s) by (rewrite Hwz, E2; reflexivity).
    assert (Hps : periodTime s3 = periodTime s) by (rewrite Hp3, Hp2; reflexivity).
    destruct (Z.eqb_spec (byte level) 0) as [Hl|Hl].
    - destruct (isr_high_inv (isr_pulseTime s micros) p s3 Hinv3)
        as (_ & [Hw4 _] & Hm4).
      rewrite Hm4, Hw4. repeat split; auto.
      left. unfold isr_high.
      destruct (MAX_PULSE_PERIODS <? p); fields; [|rewrite Hz];
        change (0 <? 0) with false; cbv iota; fields; [reflexivity|exact Hz].
    - unfold isr_low. rewrite Hz, Hps.
      destruct (Z.ltb_spec MIN_PERIOD_TIME (periodTime s));
        destruct (Z.ltb_spec MAX_PULSE_PERIODS p); cbn [andb]; fields;
        repeat split; auto.
      right. split; [reflexivity|]. repeat split; assumption. }
  destruct (Z.eqb_spec (byte level) 0) as [Hl|Hl].
  - destruct (isr_high_inv (isr_pulseTime s micros) p s3 Hinv3)
      as (Hinv4 & [Hw4 Hr4] & Hm4).
    split; [rewrite Hr4, Hr3, Hr2; reflexivity|].
    split; [|exact Hinv4].
    intros i Hi Hc. rewrite Hm4. auto.
  - destruct (isr_low_inv p s3 Hinv3) as (Hinv4 & Hr4 & Hm4).
    split; [rewrite Hr4, Hr3, Hr2; reflexivity|].
    split; [|exact Hinv4].
    intros i Hi Hc. rewrite Hm4 by auto. auto.
Qed.

Example isr_keeps_committed_full_state :
  capture_inv full_state
  /\ byte (writer full_state + streak full_state) = reader full_state
  /\ exists s', isr full_state 520 0 = Some s'
       /\ msgbuf s' = msgbuf full_state /\ streak s' = 0 /\ capture_inv s'.
Proof.
  assert (Hinv : capture_inv full_state).
  { split; [split; vm_compute; split; congruence|].
    right. vm_compute. congruence. }
  split; [exact Hinv|]. split; [reflexivity|].
  exists (mkState 130 130 0 0 3 (replicate 512 0) 130 true).
  assert (E : isr full_state 520 0
              = Some (mkState 130 130 0 0 3 (replicate 512 0) 130 true))
    by reflexivity.
  destruct (isr_keeps_committed full_state 520 0 _ Hinv E)
    as (_ & Hguard & _ & _ & Hinv').
  destruct Hguard as (Hm & _ & _).
  - reflexivity.
  - vm_compute. congruence.
  - reflexivity.
  - split; [exact E|]. split; [exact Hm|]. split; [reflexivity|exact Hinv'].
Qed.

(** The invariant holds when reception starts. *)
Lemma startReceiving_inv micros s : capture_inv (startReceiving micros s).
Proof.
  unfold startReceiving. split; [split; fields; mlia|]. left. reflexivity.
Qed.

(** A finalize that advances [writer] exactly onto [reader] leaves an
    empty range behind. *)
Remark finalize_may_reach_reader :
  capture_inv brim_state
  /\ hasData brim_state = true
  /\ sync_gap brim_state 12000 1
  /\ option_map writer (isr brim_state 12000 1) = Some (reader brim_state)
  /\ option_map hasData (isr brim_state 12000 1) = Some false.
Proof.
  split.
  { split; [split; vm_compute; split; congruence|]. right. vm_compute. congruence. }
  split; [reflexivity|]. split; [|split; reflexivity].
  unfold sync_gap. vm_compute. repeat split; congruence.
Qed.

(** C6: the guard on [writer + streak == reader] does not keep finalized
    messages from being overwritten.  Eight messages of 31 and 33 words
    fill the 256 words of the ring exactly: no slot written is the one
    [reader] points to, the last finalize sets [writer] to [reader], the
    buffer looks empty, and the three pulses that follow are stored over
    the counts of the first message, which was never consumed. *)
Theorem finalized_messages_are_overwritten :
  exists st st',
    isr_run idle_state (edges_from 0 eight_messages) = Some st
    /\ isr_run idle_state
         (edges_from 0 (eight_messages ++ data_pulses 3 300 0)) = Some st'
    /\ reader st = 0 /\ writer st = 0 /\ hasData st = false
    /\ take 256 (msgbuf st)
       = concat (replicate 4 ([100] ++ replicate 29 1 ++ [30]))
         ++ concat (replicate 4 ([100] ++ replicate 31 2 ++ [30]))
    /\ reader st' = 0 /\ writer st' = 0 /\ streak st' = 4
    /\ take 4 (msgbuf st') = [100; 3; 3; 3].
Proof.
  eexists. eexists.
  split; [vm_compute; reflexivity|].
  split; [vm_compute; reflexivity|].
  vm_compute. repeat split; reflexivity.
Qed.

(** ** The reader side *)

Lemma set_reader_same s : set_reader (reader s) s = s.
Proof. destruct s. reflexivity. Qed.

(** The loop of [continueReceiving] stops within the given fuel, at
    [writer] or at the first slot that holds more than
    [MAX_PULSE_PERIODS]. *)
Lemma continue_loop_spec fuel : forall s,
  is_byte (reader s) -> is_byte (writer s) ->
  byte (writer s - reader s) <= Z.of_nat fuel ->
  exists n,
    0 <= n <= byte (writer s - reader s)
    /\ continue_loop fuel s = set_reader (byte (reader s + n)) s
    /\ (forall k, 0 <= k < n ->
          byte (reader s + k) <> writer s
          /\ rd (msgbuf s) (byte (reader s + k)) <= MAX_PULSE_PERIODS)
    /\ (byte (reader s + n) = writer s
        \/ MAX_PULSE_PERIODS < rd (msgbuf s) (byte (reader s + n))).
Proof.
  induction fuel as [|fuel IH]; intros s Hr Hw Hfuel.
  - exists 0. assert (E : byte (reader s + 0) = reader s) by mlia.
    rewrite E. cbn [continue_loop]. rewrite set_reader_same.
    split; [mlia|]. split; [reflexivity|]. split; [intros; lia|]. left. mlia.
  - cbn [continue_loop].
    destruct (Z.eqb_spec (reader s) (writer s)) as [Heq|Hne]; cbn [negb andb].
    { exists 0. assert (E : byte (reader s + 0) = reader s) by mlia.
      rewrite E, set_reader_same.
      split; [mlia|]. split; [reflexivity|]. split; [intros; lia|].
      left. exact Heq. }
    destruct (Z.leb_spec (rd (msgbuf s) (reader s)) MAX_PULSE_PERIODS) as [Hle|Hgt].
    + destruct (IH (set_reader (byte (reader s + 1)) s))
        as (n & Hn & E & Hdata & Hstop); fields; try mlia.
      exists (n + 1).
      assert (Eb : forall k,
                byte (byte (reader s + 1) + k) = byte (reader s + (k + 1)))
        by (intros; mlia).
      rewrite Eb in *.
      split; [mlia|]. split; [exact E|]. split; [|exact Hstop].
      intros k Hk. destruct (Z.eq_dec k 0) as [->|Hk0].
      * assert (E0 : byte (reader s + 0) = reader s) by mlia. rewrite E0.
        split; assumption.
      * specialize (Hdata (k - 1) ltac:(lia)). rewrite Eb in Hdata.
        replace (k - 1 + 1) with k in Hdata by lia. exact Hdata.
    + exists 0. assert (E : byte (reader s + 0) = reader s) by mlia.
      rewrite E, set_reader_same.
      split; [mlia|]. split; [reflexivity|]. split; [intros; lia|].
      right. exact Hgt.
Qed.

(** On a buffer as the handler left it, [continueReceiving] moves
    [reader] past the header, past the [n] slots that hold at most
    [MAX_PULSE_PERIODS], and past the slot after them unless that is
    [writer]; it does nothing on an empty buffer. *)
Lemma continueReceiving_spec s :
  ring_wf s ->
  (reader s = writer s -> continueReceiving s = s)
  /\ (reader s <> writer s ->
      exists n,
        0 <= n
        /\ 1 + n <= byte (writer s - reader s)
        /\ (forall k, 0 <= k < n ->
              byte (reader s + 1 + k) <> writer s
              /\ rd (msgbuf s) (byte (reader s + 1 + k)) <= MAX_PULSE_PERIODS)
        /\ ((byte (reader s + 1 + n) = writer s
             /\ continueReceiving s = set_reader (writer s) s)
            \/ (byte (reader s + 1 + n) <> writer s
                /\ MAX_PULSE_PERIODS < rd (msgbuf s) (byte (reader s + 1 + n))
                /\ 2 + n <= byte (writer s - reader s)
                /\ continueReceiving s
                   = set_reader (byte (reader s + 1 + n + 1)) s))).
Proof.
  intros [Hs Hw Hr]. unfold continueReceiving.
  destruct (Z.eqb_spec (reader s) (writer s)) as [Heq|Hne]; cbn [negb].
  { split; [reflexivity|contradiction]. }
  split; [contradiction|]. intros _.
  destruct (continue_loop_spec 256 (set_reader (byte (reader s + 1)) s))
    as (n & Hn & E & Hdata & Hstop); fields; try mlia.
  assert (Eb : forall k, byte (byte (reader s + 1) + k) = byte (reader s + 1 + k))
    by (intros; mlia).
  rewrite Eb in *. rewrite E. fields.
  exists n. split; [lia|]. split; [mlia|].
  split.
  { intros k Hk. specialize (Hdata k Hk). rewrite Eb in Hdata. exact Hdata. }
  destruct (Z.eqb_spec (byte (reader s + 1 + n)) (writer s)) as [Hend|Hmore];
    cbn [negb].
  - left. split; [exact Hend|]. rewrite Hend. reflexivity.
  - right. split; [exact Hmore|]. destruct Hstop as [?|Hgt]; [contradiction|].
    split; [exact Hgt|]. split; [mlia|].
    assert (E2 : byte (byte (reader s + 1 + n) + 1) = byte (reader s + 1 + n + 1))
      by mlia.
    rewrite E2. reflexivity.
Qed.

Lemma continueReceiving_inv s : capture_inv s -> capture_inv (continueReceiving s).
Proof.
  intros [Hwf Hinv]. destruct (continueReceiving_spec s Hwf) as [Hempty Hmsg].
  destruct (Z.eq_dec (reader s) (writer s)) as [Heq|Hne].
  { rewrite Hempty by assumption. split; assumption. }
  destruct Hwf as [Hs Hw Hr].
  destruct (Hmsg Hne) as (n & Hn & Hc & _ & [[_ ->]|(_ & _ & Hc2 & ->)]).
  - split; [split; fields; assumption|]. left. reflexivity.
  - split; [split; fields; try assumption; mlia|]. fields.
    destruct Hinv as [?|Hinv]; [contradiction|]. mlia.
Qed.

(** C7: [getRaw] followed by [continueReceiving] does not step over the
    message.  After the capture of two messages [continueReceiving] alone
    moves [reader] from 0 to 19, the header of the second message; after
    [getRaw] has stored the 18 durations of the first message over its
    slots, [continueReceiving] stops at slot 2, and the next [getRaw]
    returns a product of two durations of the first message. *)
Theorem getRaw_then_continueReceiving_splits_message :
  exists st,
    isr_run idle_state two_messages = Some st
    /\ reader st = 0 /\ writer st = 38
    /\ take 38 (msgbuf st)
       = [100] ++ replicate 17 1 ++ [30] ++ [100] ++ replicate 17 2 ++ [30]
    /\ reader (continueReceiving st) = 19
    /\ snd (getRaw 512 st) = 18
    /\ reader (continueReceiving (fst (fst (getRaw 512 st)))) = 2
    /\ hasData (continueReceiving (fst (fst (getRaw 512 st)))) = true
    /\ raw_view (getRaw 512 (continueReceiving (fst (fst (getRaw 512 st)))))
       = [10000].
Proof.
  eexists. split; [vm_compute; reflexivity|].
  vm_compute. repeat split; reflexivity.
Qed.

Section ReaderProofs.

Variable MAX_RECORDINGS : Z.
Hypothesis MAX_RECORDINGS_range : 256 <= MAX_RECORDINGS < UINT_MOD.

(** [getRaw] changes the buffer only. *)
Lemma getRaw_ring s :
  reader (fst (fst (getRaw MAX_RECORDINGS s))) = reader s
  /\ writer (fst (fst (getRaw MAX_RECORDINGS s))) = writer s
  /\ streak (fst (fst (getRaw MAX_RECORDINGS s))) = streak s.
Proof.
  unfold getRaw.
  destruct (negb (reader s =? writer s)); [|cbn; auto].
  destruct (_ <=? _); [cbn; auto|].
  destruct (negb _); cbn; auto.
Qed.

Lemma getRaw_inv s :
  capture_inv s -> capture_inv (fst (fst (getRaw MAX_RECORDINGS s))).
Proof.
  intros [[Hs Hw Hr] Hinv]. destruct (getRaw_ring s) as (Er & Ew & Es).
  split; [split|]; rewrite ?Er, ?Ew, ?Es; assumption.
Qed.

Lemma getRaw_store_inv s c k :
  ring_wf s -> Z.of_nat (length (msgbuf s)) = MAX_RECORDINGS ->
  raw_inv s (MAX_RECORDINGS - reader s) c k ->
  getRaw_cond s (MAX_RECORDINGS - reader s) c = true ->
  raw_inv s (MAX_RECORDINGS - reader s)
    (getRaw_store s (reader s) (rd (msgbuf s) (reader s)) c) (k + 1).
Proof.
  intros [Hs Hw Hr] Hlen
    (Hk & Hpos & Hsize & Hmax & Hd & Hl & Hent & Hrest & Hdata) Hcond.
  unfold getRaw_cond in Hcond. rewrite Hpos, Hsize in Hcond.
  apply andb_prop in Hcond as [Hcond Hc3]. apply andb_prop in Hcond as [Hc1 Hc2].
  apply negb_true_iff, Z.eqb_neq in Hc1.
  apply Z.leb_le in Hc2. apply Z.ltb_lt in Hc3.
  assert (Hidx : 0 <= byte (reader s + (k + 1))
                 /\ (byte (reader s + (k + 1)) < reader s
                     \/ reader s + k <= byte (reader s + (k + 1)))) by mlia.
  rewrite (Hrest _ (proj1 Hidx) (proj2 Hidx)) in Hc2.
  assert (Hu : uadd (reader s) k = reader s + k) by (unfold uadd; mlia).
  unfold raw_inv, getRaw_store. cbn [rc_buf rc_pos rc_size].
  rewrite Hpos, Hsize, Hu, (Hrest _ (proj1 Hidx) (proj2 Hidx)).
  replace (reader s + (k + 1)) with (reader s + 1 + k) in * by lia.
  repeat split.
  - lia.
  - mlia.
  - mlia.
  - lia.
  - mlia.
  - rewrite length_wr. exact Hl.
  - intros i Hi. destruct (Z.eq_dec i k) as [->|Hne].
    + apply rd_wr_eq. rewrite Hl. mlia.
    + rewrite rd_wr_ne by mlia. apply Hent. lia.
  - intros j Hj Hout. rewrite rd_wr_ne by mlia. apply Hrest; mlia.
  - intros i Hi. destruct (Z.eq_dec i k) as [->|Hne]; [exact Hc2|apply Hdata; lia].
Qed.

(** The loop of [getRaw] leaves on its condition within the given fuel. *)
Lemma getRaw_loop_inv fuel s : forall c k,
  ring_wf s -> Z.of_nat (length (msgbuf s)) = MAX_RECORDINGS ->
  raw_inv s (MAX_RECORDINGS - reader s) c k ->
  byte (writer s - reader s) - k <= Z.of_nat fuel ->
  exists n,
    k <= n
    /\ raw_inv s (MAX_RECORDINGS - reader s)
         (getRaw_loop fuel s (reader s) (MAX_RECORDINGS - reader s)
            (rd (msgbuf s) (reader s)) c) n
    /\ getRaw_cond s (MAX_RECORDINGS - reader s)
         (getRaw_loop fuel s (reader s) (MAX_RECORDINGS - reader s)
            (rd (msgbuf s) (reader s)) c)
       = false.
Proof.
  induction fuel as [|fuel IH]; intros c k Hwf Hlen Hinv Hfuel.
  - destruct Hinv as (_ & _ & _ & _ & Hd & _). lia.
  - cbn [getRaw_loop].
    destruct (getRaw_cond s (MAX_RECORDINGS - reader s) c) eqn:Hcond.
    + destruct (IH _ (k + 1) Hwf Hlen (getRaw_store_inv s c k Hwf Hlen Hinv Hcond))
        as (n & Hn & Hinv' & Hc').
      * lia.
      * exists n. split; [lia|]. split; assumption.
    + exists k. split; [lia|]. split; assumption.
Qed.

(** C8, as amended: [getRaw] changes neither [reader] nor [writer].  Let
    [n] be the number of slots after the header that it unwinds, each at
    most [MAX_PULSE_PERIODS] and before [writer].  The count is 0 when the
    buffer is empty or when [n] reaches the flat space
    [MAX_RECORDINGS - reader]; it is [n] when the walk ends at [writer]
    without wrapping past slot 255 (so it is 0 for a pending header
    alone); it is [n + 1], the sync slot included, when the walk ends
    before [writer] at a slot above [MAX_PULSE_PERIODS].  Every returned
    entry is the header times the stored count in 16-bit arithmetic. *)
Theorem getRaw_unwinds s :
  ring_wf s -> Z.of_nat (length (msgbuf s)) = MAX_RECORDINGS ->
  exists n s' size,
    getRaw MAX_RECORDINGS s = (s', reader s, size)
    /\ reader s' = reader s /\ writer s' = writer s /\ streak s' = streak s
    /\ 0 <= n
    /\ (forall k, 0 <= k < n ->
          byte (reader s + 1 + k) <> writer s
          /\ rd (msgbuf s) (byte (reader s + 1 + k)) <= MAX_PULSE_PERIODS)
    /\ (reader s = writer s -> size = 0 /\ s' = s)
    /\ (reader s <> writer s ->
          (n = MAX_RECORDINGS - reader s /\ size = 0)
          \/ (n < MAX_RECORDINGS - reader s
              /\ byte (reader s + 1 + n) = writer s
              /\ (reader s + 1 + n < 256 -> size = n))
          \/ (n < MAX_RECORDINGS - reader s
              /\ byte (reader s + 1 + n) <> writer s
              /\ MAX_PULSE_PERIODS < rd (msgbuf s) (byte (reader s + 1 + n))
              /\ size = n + 1))
    /\ (forall k, 0 <= k < size ->
          rd (msgbuf s') (reader s + k)
          = umul (rd (msgbuf s) (reader s))
                 (rd (msgbuf s) (byte (reader s + 1 + k)))).
Proof.
  intros Hwf Hlen. pose proof Hwf as [Hs Hw Hr].
  pose proof MAX_RECORDINGS_range as HM.
  unfold getRaw.
  assert (E1 : uint (reader s) = reader s) by mlia.
  assert (E2 : uint (MAX_RECORDINGS - reader s) = MAX_RECORDINGS - reader s) by mlia.
  assert (E3 : byte (reader s + 0) = reader s) by mlia.
  rewrite E1, E2, E3.
  destruct (Z.eqb_spec (reader s) (writer s)) as [Heq|Hne]; cbn [negb].
  { exists 0, s, 0. repeat split; try reflexivity; try lia; try contradiction. }
  set (pt := rd (msgbuf s) (reader s)).
  set (max_size := MAX_RECORDINGS - reader s).
  assert (Hinit : raw_inv s max_size (mkRawCursor (msgbuf s) 1 0) 0).
  { unfold raw_inv. cbn [rc_buf rc_pos rc_size]. subst max_size.
    repeat split; try reflexivity; try mlia. }
  destruct (getRaw_loop_inv 256 s _ 0 Hwf Hlen Hinit) as (n & Hn & Hinv & Hcond);
    [mlia|].
  fold pt max_size in Hinv, Hcond.
  set (c := getRaw_loop 256 s (reader s) max_size pt _) in *.
  destruct Hinv as (Hk & Hpos & Hsize & Hmax & Hd & Hl & Hent & Hrest & Hdata).
  assert (Hidx : 0 <= byte (reader s + (n + 1))
                 /\ (byte (reader s + (n + 1)) < reader s
                     \/ reader s + n <= byte (reader s + (n + 1)))) by mlia.
  assert (Hdata' : forall k, 0 <= k < n ->
            byte (reader s + 1 + k) <> writer s
            /\ rd (msgbuf s) (byte (reader s + 1 + k)) <= MAX_PULSE_PERIODS).
  { intros k Hk'. split; [mlia|apply Hdata; exact Hk']. }
  unfold getRaw_cond in Hcond. rewrite Hpos, Hsize in Hcond.
  rewrite (Hrest _ (proj1 Hidx) (proj2 Hidx)) in Hcond.
  replace (reader s + (n + 1)) with (reader s + 1 + n) in * by lia.
  rewrite Hsize, Hpos.
  destruct (Z.leb_spec max_size n) as [Hfull|Hfit].
  { exists n. eexists. exists 0. split; [reflexivity|]. fields.
    split; [reflexivity|]. split; [reflexivity|]. split; [reflexivity|].
    split; [lia|]. split; [exact Hdata'|]. split; [contradiction|].
    split; [|intros k Hk'; lia].
    intros _. left. split; [lia|reflexivity]. }
  replace (reader s + (n + 1)) with (reader s + 1 + n) by lia.
  destruct (Z.eqb_spec (reader s + 1 + n) (writer s)) as [Hend|Hsync]; cbn [negb].
  { exists n. eexists. exists n. split; [reflexivity|]. fields.
    split; [reflexivity|]. split; [reflexivity|]. split; [reflexivity|].
    split; [lia|]. split; [exact Hdata'|]. split; [contradiction|].
    split; [|exact Hent].
    intros _. right. left. split; [lia|]. split; [mlia|]. intros _. reflexivity. }
  exists n. eexists. exists (n + 1). unfold getRaw_store. cbn [rc_buf rc_pos rc_size].
  rewrite Hsize, Hpos.
  assert (Hu : uadd (reader s) n = reader s + n) by (unfold uadd; mlia).
  assert (Hu1 : uint (n + 1) = n + 1) by mlia.
  rewrite Hu, Hu1. split; [reflexivity|]. fields.
  replace (reader s + (n + 1)) with (reader s + 1 + n) by lia.
  rewrite (Hrest _ (proj1 Hidx) (proj2 Hidx)).
  split; [reflexivity|]. split; [reflexivity|]. split; [reflexivity|].
  split; [lia|]. split; [exact Hdata'|]. split; [contradiction|].
  split.
  - intros _.
    destruct (Z.eq_dec (byte (reader s + 1 + n)) (writer s)) as [Hstop|Hstop].
    + right. left. split; [lia|]. split; [exact Hstop|]. intros Hlt. mlia.
    + right. right. split; [lia|]. split; [exact Hstop|]. split; [|reflexivity].
      destruct (Z.eqb_spec (byte (reader s + 1 + n)) (writer s)); [contradiction|].
      destruct (Z.ltb_spec n max_size); [|lia].
      cbn [negb andb] in Hcond. rewrite andb_true_r in Hcond.
      apply Z.leb_gt in Hcond. exact Hcond.
  - intros k Hk'. destruct (Z.eq_dec k n) as [->|Hkn].
    + apply rd_wr_eq. rewrite Hl. subst max_size. mlia.
    + rewrite rd_wr_ne by mlia. apply Hent. lia.
Qed.

End ReaderProofs.

Lemma getRaw_unwinds_witness :
  256 <= 512 < UINT_MOD
  /\ ring_wf message_state
  /\ Z.of_nat (length (msgbuf message_state)) = 512
  /\ exists (s' : state) (size : Z),
       getRaw 512 message_state = (s', reader message_state, size)
       /\ reader s' = reader message_state
       /\ (forall k, 0 <= k < size ->
             rd (msgbuf s') (reader message_state + k)
             = umul (rd (msgbuf message_state) (reader message_state))
                 (rd (msgbuf message_state)
                    (byte (reader message_state + 1 + k)))).
Proof.
  assert (HM : 256 <= 512 < UINT_MOD) by (split; [lia|reflexivity]).
  assert (Hwf : ring_wf message_state) by (split; vm_compute; split; congruence).
  assert (Hlen : Z.of_nat (length (msgbuf message_state)) = 512) by reflexivity.
  split; [exact HM|]. split; [exact Hwf|]. split; [exact Hlen|].
  destruct (getRaw_unwinds 512 HM message_state Hwf Hlen)
    as (n & s' & size & E & Hr & _ & _ & _ & _ & _ & _ & Hent).
  exists s', size. split; [exact E|]. split; [exact Hr|exact Hent].
Defined.

(** [getRaw] also returns count 0 when only the header is pending; it
    appends a word from beyond [writer] when the walk ends at [writer]
    after wrapping past slot 255; and the product of header and count
    wraps at 16 bits: 3000 * 30 is returned as 24464. *)
Lemma getRaw_counterexample :
  (reader header_only_state <> writer header_only_state
   /\ 0 < 512 - reader header_only_state
   /\ snd (getRaw 512 header_only_state) = 0)
  /\ (byte (reader wrapped_state + 3) = writer wrapped_state
      /\ snd (getRaw 512 wrapped_state) = 3
      /\ raw_view (getRaw 512 wrapped_state) = [300; 200; 700]
      /\ rd (msgbuf wrapped_state) (writer wrapped_state) = 7)
  /\ (take 3 (msgbuf overflow_state) = [3000; 1; 30]
      /\ raw_view (getRaw 512 overflow_state) = [3000; 24464]
      /\ 3000 * 30 = 90000).
Proof.
  vm_compute. repeat split; congruence.
Qed.

(** ** Bucket compression *)

(** *** The bucket table through the first pass *)

Lemma clear_buckets_8 b : length b = 8%nat -> clear_buckets b = zeros8.
Proof.
  intros Hlen.
  destruct b as [|a0 [|a1 [|a2 [|a3 [|a4 [|a5 [|a6 [|a7 [|]]]]]]]]]; try discriminate.
  reflexivity.
Qed.



Lemma cs_scan_timings n : forall j val w,
  timings (snd (cs_scan n j val w)) = timings w.
Proof.
  induction n as [|n IH]; intros j val w; [reflexivity|].
  cbn [cs_scan]. destruct (rd (buckets w) j =? 0); [reflexivity|].
  destruct (in_band (rd (buckets w) j) val); [reflexivity|]. apply IH.
Qed.

Lemma cs_loop_timings n : forall i w,
  timings (snd (cs_loop n i w)) = timings w.
Proof.
  induction n as [|n IH]; intros i w; [reflexivity|].
  cbn [cs_loop].
  pose proof (cs_scan_timings 8 0 (rd (timings w) i) w) as Ht.
  destruct (cs_scan 8 0 (rd (timings w) i) w) as [j w'] eqn:E. cbn [snd] in Ht.
  destruct (j =? 8); cbn [snd]; [exact Ht|]. rewrite IH. exact Ht.
Qed.



(** *** First fit *)

(** What the inner loop of [compressTimings] does from slot [j] on. *)
Lemma ct_scan_spec n : forall j i w j' w',
  ct_scan n j i w = (j', w') ->
  j <= j' <= j + Z.of_nat n
  /\ (forall k, j <= k < j' ->
        rd (buckets w) k <> 0
        /\ in_band (rd (buckets w) k) (rd (timings w) i) = false)
  /\ ((j' = j + Z.of_nat n /\ w' = w)
      \/ (j' < j + Z.of_nat n
          /\ (rd (buckets w) j' = 0
              \/ in_band (rd (buckets w) j') (rd (timings w) i) = true)
          /\ w' = assign i j' w)).
Proof.
  induction n as [|n IH]; intros j i w j' w' E.
  - cbn [ct_scan] in E. injection E as <- <-.
    split; [lia|]. split; [intros k Hk; lia|]. left. split; [lia|reflexivity].
  - cbn [ct_scan] in E.
    destruct (Z.eqb_spec (rd (buckets w) j) 0) as [Hz|Hnz].
    + injection E as <- <-. split; [lia|]. split; [intros k Hk; lia|].
      right. split; [lia|]. split; [left; exact Hz|].
      unfold assign, account. wfields.
      destruct (Z.eqb_spec (rd (buckets w) j) 0); [reflexivity|contradiction].
    + destruct (in_band (rd (buckets w) j) (rd (timings w) i)) eqn:Hfit.
      * injection E as <- <-. split; [lia|]. split; [intros k Hk; lia|].
        right. split; [lia|]. split; [right; exact Hfit|].
        unfold assign, account. wfields.
        destruct (Z.eqb_spec (rd (buckets w) j) 0); [contradiction|reflexivity].
      * destruct (IH _ _ _ _ _ E) as (Hr & Hbefore & Hres).
        split; [lia|]. split.
        { intros k Hk. destruct (Z.eq_dec k j) as [->|Hne]; [split; assumption|].
          apply Hbefore. lia. }
        destruct Hres as [[-> ->]|(Hlt & Hat & ->)].
        { left. split; [lia|reflexivity]. }
        { right. split; [lia|]. split; [exact Hat|reflexivity]. }
Qed.

Lemma ct_scan_first_fit i w j :
  first_fit (buckets w) (rd (timings w) i) j ->
  ct_scan 8 0 i w = (j, assign i j w).
Proof.
  intros (Hj & Hat & Hbefore).
  destruct (ct_scan 8 0 i w) as [j' w'] eqn:E.
  destruct (ct_scan_spec _ _ _ _ _ _ E) as (Hr & Hb' & Hres).
  assert (Hjj : j' = j).
  { destruct (Z.lt_trichotomy j' j) as [Hlt|[Heq|Hgt]]; [|exact Heq|].
    - destruct (Hbefore j' ltac:(lia)) as [Hn Hf].
      destruct Hres as [[-> _]|(_ & [Hz|Hfit] & _)]; [lia|contradiction|congruence].
    - destruct (Hb' j ltac:(lia)) as [Hn Hf].
      destruct Hat as [Hz|Hfit]; [contradiction|congruence]. }
  subst j'. destruct Hres as [[-> _]|(_ & _ & ->)]; [lia|reflexivity].
Qed.

Lemma ct_scan_no_fit i w :
  no_fit (buckets w) (rd (timings w) i) -> ct_scan 8 0 i w = (8, w).
Proof.
  intros Hno.
  destruct (ct_scan 8 0 i w) as [j' w'] eqn:E.
  destruct (ct_scan_spec _ _ _ _ _ _ E) as (Hr & Hb' & Hres).
  destruct Hres as [[-> ->]|(Hlt & Hat & _)]; [reflexivity|].
  destruct (Hno j' ltac:(lia)) as [Hn Hf].
  destruct Hat as [Hz|Hfit]; [contradiction|congruence].
Qed.

Lemma ct_loop_classified n : forall i w ok w',
  ct_loop n i w = (ok, w') -> classified n i w ok w'.
Proof.
  induction n as [|n IH]; intros i w ok w' E.
  - cbn [ct_loop] in E. injection E as <- <-. constructor.
  - cbn [ct_loop] in E.
    destruct (ct_scan 8 0 i w) as [j w1] eqn:Es.
    destruct (ct_scan_spec _ _ _ _ _ _ Es) as (Hr & Hbefore & Hres).
    destruct (Z.eqb_spec j 8) as [->|Hne].
    + injection E as <- <-.
      destruct Hres as [[_ ->]|(Hlt & _)]; [|lia].
      apply classified_fail. intros k Hk. apply Hbefore. lia.
    + destruct Hres as [[-> _]|(Hlt & Hat & ->)]; [contradiction|].
      apply (classified_step _ _ j); [|apply IH; exact E].
      split; [lia|]. split; [exact Hat|]. intros k Hk. apply Hbefore. lia.
Qed.

Lemma classified_ct_loop n i w ok w' :
  classified n i w ok w' -> ct_loop n i w = (ok, w').
Proof.
  induction 1 as [i w|n i w Hno|n i j w ok w' Hfit Hrest IH].
  - reflexivity.
  - cbn [ct_loop]. rewrite (ct_scan_no_fit _ _ Hno). reflexivity.
  - cbn [ct_loop]. rewrite (ct_scan_first_fit _ _ _ Hfit).
    destruct Hfit as (Hj & _).
    destruct (Z.eqb_spec j 8); [lia|]. exact IH.
Qed.

Lemma class_mean_step w j0 j :
  0 <= j0 -> 0 <= j < Z.of_nat (length (buckets w)) ->
  class_mean (mean_step w j0) j = class_mean w j
  /\ rd (buckets (mean_step w j0)) j
     = (if Z.eq_dec j j0 then class_mean w j else rd (buckets w) j)
  /\ length (buckets (mean_step w j0)) = length (buckets w).
Proof.
  intros Hj0 Hj. unfold mean_step, class_mean.
  destruct (Z.eqb_spec (rd (counts w) j0) 0) as [Hz|Hnz].
  - split; [reflexivity|]. split; [|reflexivity].
    destruct (Z.eq_dec j j0) as [->|]; [|reflexivity].
    destruct (Z.eqb_spec (rd (counts w) j0) 0); [reflexivity|contradiction].
  - wfields. rewrite length_wr.
    destruct (Z.eq_dec j j0) as [->|Hne].
    + destruct (Z.eqb_spec (rd (counts w) j0) 0); [contradiction|].
      rewrite rd_wr_eq by lia. auto.
    + rewrite rd_wr_ne by lia. auto.
Qed.

Lemma means_spec w j :
  length (buckets w) = 8%nat -> 0 <= j < 8 ->
  rd (buckets (means w)) j = class_mean w j.
Proof.
  intros Hl Hj. unfold means.
  assert (Hgen : forall js w,
    length (buckets w) = 8%nat -> Forall (fun k => 0 <= k) js ->
    class_mean (foldl mean_step w js) j = class_mean w j
    /\ length (buckets (foldl mean_step w js)) = 8%nat
    /\ (In j js -> rd (buckets (foldl mean_step w js)) j = class_mean w j)
    /\ (~ In j js -> rd (buckets (foldl mean_step w js)) j = rd (buckets w) j)).
  { clear w Hl. induction js as [|j0 js IH]; intros w Hl Hjs.
    - cbn [foldl]. repeat split; auto. intros [].
    - apply Forall_cons in Hjs as [Hj0 Hjs]. cbn [foldl].
      destruct (class_mean_step w j0 j Hj0 ltac:(lia)) as (Hc & Hr & Hl').
      destruct (IH (mean_step w j0) ltac:(lia) Hjs) as (IHc & IHl & IHin & IHout).
      split; [rewrite IHc; exact Hc|]. split; [exact IHl|]. split.
      + intros Hin. destruct (in_dec Z.eq_dec j js) as [Hjs'|Hjs'].
        * rewrite IHin by assumption. exact Hc.
        * rewrite IHout by assumption. rewrite Hr.
          destruct (Z.eq_dec j j0); [reflexivity|].
          destruct Hin as [?|?]; [congruence|contradiction].
      + intros Hnin. rewrite IHout by (intros ?; apply Hnin; right; assumption).
        rewrite Hr. destruct (Z.eq_dec j j0) as [->|]; [|reflexivity].
        exfalso. apply Hnin. left. reflexivity. }
  destruct (Hgen (seqZ 0 8) w Hl) as (_ & _ & Hin & _).
  { change (seqZ 0 8) with [0; 1; 2; 3; 4; 5; 6; 7]. repeat constructor; lia. }
  apply Hin. change (seqZ 0 8) with [0; 1; 2; 3; 4; 5; 6; 7]. cbn [In]. lia.
Qed.

(** *** The bubble sort and the compaction *)














(** *** The two compression functions *)

Lemma means_timings w : timings (means w) = timings w.
Proof.
  unfold means. generalize (seqZ 0 8). intros js. revert w.
  induction js as [|j js IH]; intros w; [reflexivity|].
  cbn [foldl]. rewrite IH. unfold mean_step.
  destruct (rd (counts w) j =? 0); reflexivity.
Qed.

Lemma classified_length n i w ok w' :
  classified n i w ok w' -> length (buckets w') = length (buckets w).
Proof.
  induction 1 as [i w|n i w Hno|n i j w ok w' Hfit Hrest IH]; try reflexivity.
  rewrite IH. unfold assign. wfields.
  destruct (rd (buckets w) j =? 0); [apply length_wr|reflexivity].
Qed.

(** C2, as amended: [compressTimings] gives each duration to the first
    class, in index order, whose slot is empty or whose reference value
    (the duration that opened the class, not its running mean) has the
    duration strictly inside [ref - (ref/4 + ref/8), ref + (ref/4 +
    ref/8)]; it adds the duration to the sum and the count of that class
    and writes the label.  The scan of a duration fails exactly when all
    eight slots are occupied and none fits, and then the function returns
    false.  The means are written to [buckets] once, after the last
    duration, as sum / count of each class that has members. *)
Theorem compressTimings_first_fit b0 t n ok b t' :
  length b0 = 8%nat ->
  compressTimings b0 t n = (ok, b, t') ->
  (forall i w,
      fst (ct_scan 8 0 i w) = 8 <-> no_fit (buckets w) (rd (timings w) i))
  /\ exists w,
       classified n 0 (mkWork zeros8 zeros8 zeros8 t) ok w
       /\ (forall ok2 w2,
             classified n 0 (mkWork zeros8 zeros8 zeros8 t) ok2 w2 ->
             ok2 = ok /\ w2 = w)
       /\ t' = timings w
       /\ (ok = true -> forall j, 0 <= j < 8 -> rd b j = class_mean w j)
       /\ (ok = false -> b = buckets w).
Proof.
  intros Hlen E. split.
  { intros i w. split.
    - intros Hj. destruct (ct_scan 8 0 i w) as [j w'] eqn:Es. cbn [fst] in Hj.
      subst j. destruct (ct_scan_spec _ _ _ _ _ _ Es) as (_ & Hbefore & _).
      intros k Hk. apply Hbefore. lia.
    - intros Hno. rewrite (ct_scan_no_fit _ _ Hno). reflexivity. }
  unfold compressTimings in E. rewrite (clear_buckets_8 _ Hlen) in E.
  destruct (ct_loop n 0 (mkWork zeros8 zeros8 zeros8 t)) as [ok1 w1] eqn:El.
  pose proof (ct_loop_classified _ _ _ _ _ El) as Hc.
  assert (Hdet : forall ok2 w2,
    classified n 0 (mkWork zeros8 zeros8 zeros8 t) ok2 w2 -> ok2 = ok1 /\ w2 = w1).
  { intros ok2 w2 H2. apply classified_ct_loop in H2. rewrite El in H2.
    injection H2 as <- <-. split; reflexivity. }
  destruct ok1;
    apply pair_equal_spec in E as [E <-];
    apply pair_equal_spec in E as [<- <-];
    exists w1; (split; [exact Hc|]); (split; [exact Hdet|]).
  - split; [apply means_timings|]. split; [|discriminate].
    intros _ j Hj. apply means_spec; [|exact Hj].
    rewrite (classified_length _ _ _ _ _ Hc). reflexivity.
  - split; [reflexivity|]. split; [discriminate|reflexivity].
Qed.

Lemma compressTimings_first_fit_witness :
  compressTimings zeros8 [100; 137; 101] 3
    = (true, [100; 137; 0; 0; 0; 0; 0; 0], [0; 1; 0])
  /\ exists w,
       classified 3 0 (mkWork zeros8 zeros8 zeros8 [100; 137; 101]) true w
       /\ timings w = [0; 1; 0]
       /\ class_mean w 0 = 100.
Proof.
  assert (E : compressTimings zeros8 [100; 137; 101] 3
              = (true, [100; 137; 0; 0; 0; 0; 0; 0], [0; 1; 0])) by reflexivity.
  split; [exact E|].
  destruct (compressTimings_first_fit zeros8 [100; 137; 101] 3 _ _ _ eq_refl E)
    as (_ & w & Hc & _ & Ht & Hm & _).
  exists w. split; [exact Hc|]. split; [symmetry; exact Ht|].
  rewrite <- (Hm eq_refl 0); [reflexivity|lia].
Defined.

(** The classification of the source is not the one worded with running
    means and a closed band: 137 lies on the bound of the band of 100;
    160 lies in the band of the running mean 118 of 100 and 136 but not
    in the band of the reference value 100; and the upper bound of the
    band of 60000 wraps at 16 bits, so that 60000 does not fit the class
    it opened. *)
Lemma compressTimings_counterexample :
  (spec_band 100 137 = true
   /\ spec_compressTimings [100; 137]
      = Some ([118; 0; 0; 0; 0; 0; 0; 0], [0; 0])
   /\ compressTimings zeros8 [100; 137] 2
      = (true, [100; 137; 0; 0; 0; 0; 0; 0], [0; 1]))
  /\ (spec_band ((100 + 136) / 2) 160 = true
      /\ spec_compressTimings [100; 136; 160]
         = Some ([132; 0; 0; 0; 0; 0; 0; 0], [0; 0; 0])
      /\ compressTimings zeros8 [100; 136; 160] 3
         = (true, [118; 160; 0; 0; 0; 0; 0; 0], [0; 0; 1]))
  /\ (spec_band 60000 60000 = true
      /\ spec_compressTimings [60000; 60000]
         = Some ([60000; 0; 0; 0; 0; 0; 0; 0], [0; 0])
      /\ compressTimings zeros8 [60000; 60000] 2
         = (true, [60000; 60000; 0; 0; 0; 0; 0; 0], [0; 1])).
Proof. vm_compute. repeat split; reflexivity. Qed.

(** C3: [compressTimingsAndSortBuckets] can return true and leave raw
    durations in [timings].  For 100, 64, 64, 64 the only class has mean
    73, whose band ends below 100: the first entry stays 100, which is no
    class index, and no bucket is within tolerance of it.  For eight
    durations in eight classes the compaction clears every bucket, and
    no duration is relabelled. *)
Theorem compressTimingsAndSortBuckets_leaves_raw_duration :
  (compressTimingsAndSortBuckets zeros8 [100; 64; 64; 64] 4
     = (true, [73; 0; 0; 0; 0; 0; 0; 0], [100; 0; 0; 0])
   /\ ~ (0 <= rd [100; 0; 0; 0] 0 < 8)
   /\ forall j, 0 <= j < 8 ->
        ~ within_tolerance (expand [73; 0; 0; 0; 0; 0; 0; 0] j) 100)
  /\ compressTimingsAndSortBuckets zeros8
       [100; 200; 400; 800; 1600; 3200; 6400; 12800] 8
     = (true, zeros8, [100; 200; 400; 800; 1600; 3200; 6400; 12800]).
Proof.
  split; [|reflexivity].
  split; [reflexivity|].
  split; [change (rd [100; 0; 0; 0] 0) with 100; lia|].
  intros j Hj. unfold within_tolerance.
  assert (Hcases : j = 0 \/ j = 1 \/ j = 2 \/ j = 3 \/ j = 4 \/ j = 5
                   \/ j = 6 \/ j = 7) by lia.
  repeat (destruct Hcases as [->|Hcases]; [vm_compute; discriminate|]).
  subst j. vm_compute. discriminate.
Qed.



(** C10: when [compressTimingsAndSortBuckets] returns false, [timings]
    is as the caller passed it. *)
Theorem compressTimingsAndSortBuckets_failure_keeps_timings b0 t n b t' :
  compressTimingsAndSortBuckets b0 t n = (false, b, t') -> t' = t.
Proof.
  intros E. unfold compressTimingsAndSortBuckets in E.
  pose proof (cs_loop_timings n 0 (mkWork (clear_buckets b0) zeros8 zeros8 t)) as Ht.
  destruct (cs_loop n 0 _) as [ok w1].
  destruct ok; [discriminate|].
  apply pair_equal_spec in E as [_ <-]. exact Ht.
Qed.

Lemma compressTimingsAndSortBuckets_failure_witness :
  fst (fst (compressTimingsAndSortBuckets zeros8
              [100; 200; 400; 800; 1600; 3200; 6400; 12800; 25600] 9)) = false
  /\ snd (compressTimingsAndSortBuckets zeros8
            [100; 200; 400; 800; 1600; 3200; 6400; 12800; 25600] 9)
     = [100; 200; 400; 800; 1600; 3200; 6400; 12800; 25600].
Proof.
  split; [reflexivity|].
  apply (compressTimingsAndSortBuckets_failure_keeps_timings zeros8
           [100; 200; 400; 800; 1600; 3200; 6400; 12800; 25600] 9
           [100; 200; 400; 800; 1600; 3200; 6400; 12800]).
  reflexivity.
Defined.
